(** * SummingConstraintSet (gas_male/helpers.py)

    A shallow embedding of the constraint-summing helper and the
    properties of its [summedvars] bookkeeping.

    The helper sits on top of the gpkit modelling library.  What the
    helper itself does (seeding, the depth-one filter, the exactly-one
    assertion, the scan for nested summations, the final set difference
    and the single synthesized constraint) is transcribed line by line.
    What gpkit does is kept to the interface the helper uses: variable
    keys with a provenance chain, a by-name lookup on models, the
    flattening of a constraint tree, and the variable keys of a sum. *)

From stdpp Require Import gmap strings list sets.

#[local] Set Warnings "-clear-no-such-hyp".

Open Scope string_scope.

(** ** Data model *)

(** A variable key.  [vk_models] is the provenance chain ([key.models]
    in the source): the names of the models that declared the variable.
    The remaining fields are the rest of the descriptor ([key.descr]). *)
Record VarKey := mkVarKey {
  vk_name : string;
  vk_models : list string;
  vk_units : string;
  vk_label : string
}.

#[global] Instance VarKey_eq_dec : EqDecision VarKey.
Proof. solve_decision. Defined.

#[global] Instance VarKey_countable : Countable VarKey.
Proof.
  refine (inj_countable'
    (fun k => (vk_name k, vk_models k, vk_units k, vk_label k))
    (fun t => match t with (n, ms, u, l) => mkVarKey n ms u l end) _).
  by intros [].
Defined.

(** A variable object; the helper only ever reads its [key]. *)
Record variable := mkVariable { key : VarKey }.

(** Algebraic expressions, as far as the helper builds them: the integer
    that seeds Python's [sum], variables, and addition. *)
Inductive Nomial :=
| Num (c : Z)
| Var (v : variable)
| Add (a b : Nomial).

(** Python's builtin [sum]: a left fold of [+] starting from [0]. *)
Definition py_sum (terms : list Nomial) : Nomial :=
  fold_left Add terms (Num 0).

(** Modelled from the spec: gpkit's [p.varkeys], which is not part of the
    helper: the keys of the variables occurring in an expression. *)
Fixpoint varkeys (p : Nomial) : gset VarKey :=
  match p with
  | Num _ => ∅
  | Var v => {[ key v ]}
  | Add a b => varkeys a ∪ varkeys b
  end.

#[local] Set Warnings "-register-all".

(** The constraint tree.  [PosynomialInequality m_gt p_lt] is what
    [m_gt >= p_lt] evaluates to; a constraint set holds an ordered list
    of children, which may again be constraint sets. *)
Inductive Constraint :=
| PosynomialInequality (m_gt p_lt : Nomial)
| ConstraintSet (items : list Constraint)
| SummingConstraintSet (items : list Constraint).

(** The [summedvars] property (helpers.py, lines 23-25):
    [set(self[0].p_lt.varkeys)].  It exists on SummingConstraintSets
    only; [None] stands for [hasattr(constraint, "summedvars")] being
    false. *)
Definition summedvars (c : Constraint) : option (gset VarKey) :=
  match c with
  | SummingConstraintSet (PosynomialInequality _ p_lt :: _) =>
      Some (varkeys p_lt)
  | _ => None
  end.

(** What [model[varname]] returns: one variable, or a collection. *)
Inductive Lookup :=
| Single (v : variable)
| Many (vs : list variable).

(** A sub-model: its name, its by-name variable lookup and the
    constraints it holds. *)
Record Model := mkModel {
  name : string;
  getitem : string → Lookup;
  constraints : list Constraint
}.

(** Modelled from the spec: gpkit's [ConstraintSet.flat], which is not
    part of the helper.  It yields every constraint reachable within a
    constraint set, at arbitrary depth, nested constraint sets
    included. *)
Fixpoint flat_constraint (c : Constraint) : list Constraint :=
  match c with
  | PosynomialInequality _ _ => [c]
  | ConstraintSet items => c :: flat_map flat_constraint items
  | SummingConstraintSet items => c :: flat_map flat_constraint items
  end.

Definition flat (model : Model) : list Constraint :=
  flat_map flat_constraint (constraints model).

(** ** Exceptions *)

Inductive Exception :=
| AssertionError
| IndexError.

Inductive result (A : Type) :=
| Ok (a : A)
| Raise (e : Exception).

Arguments Ok {A} a.
Arguments Raise {A} e.

#[global] Instance Exception_eq_dec : EqDecision Exception.
Proof. solve_decision. Defined.

#[global] Instance result_eq_dec `{EqDecision A} : EqDecision (result A).
Proof. solve_decision. Defined.

(** Sequencing: the first exception raised ends the computation. *)
#[global] Instance result_bind : MBind result := fun A B k r =>
  match r with
  | Ok a => k a
  | Raise e => Raise e
  end.

(** ** The constructor *)

(** Lines 9-10: a lookup result without [__len__] is wrapped in a
    one-element list. *)
Definition as_list (mvars : Lookup) : list variable :=
  match mvars with
  | Single v => [v]
  | Many vs => vs
  end.

(** Line 13: [[v for v in mvars if v.key.models[0] == model.name]].
    Indexing an empty provenance chain raises. *)
Fixpoint depth_one (model_name : string) (mvars : list variable)
  : result (list variable) :=
  match mvars with
  | [] => Ok []
  | v :: rest =>
      match vk_models (key v) with
      | [] => Raise IndexError
      | m0 :: _ =>
          kept ← depth_one model_name rest ;
          Ok (if decide (m0 = model_name) then v :: kept else kept)
      end
  end.

(** Lines 16-18: the scan of [model.flat()] for nested summations. *)
Definition scan_flat (alreadysummed : gset VarKey) (cs : list Constraint)
  : gset VarKey :=
  fold_left
    (fun acc constraint =>
       match summedvars constraint with
       | Some s => acc ∪ s
       | None => acc
       end)
    cs alreadysummed.

(** Lines 8-18: the body of [for model in models], on the two
    accumulators [(summedvars, alreadysummed)]. *)
Definition loop_body (varname : string) (st : gset VarKey * gset VarKey)
  (model : Model) : result (gset VarKey * gset VarKey) :=
  let '(summed, alreadysummed) := st in
  let mvars := as_list (getitem model varname) in
  mvars ← depth_one (name model) mvars ;
  if decide (length mvars = 1) then
    let summed := summed ∪ list_to_set (key <$> mvars) in
    let alreadysummed := scan_flat alreadysummed (flat model) in
    Ok (summed, alreadysummed)
  else Raise AssertionError.

Fixpoint for_models (varname : string) (st : gset VarKey * gset VarKey)
  (models : list Model) : result (gset VarKey * gset VarKey) :=
  match models with
  | [] => Ok st
  | model :: rest =>
      st' ← loop_body varname st model ;
      for_models varname st' rest
  end.

(** Lines 5-19: the local [summedvars] as it stands after line 19. *)
Definition computed_summedvars (varname : string) (models : list Model)
  (variables : list variable) : result (gset VarKey) :=
  let summed : gset VarKey := list_to_set (key <$> variables) in
  let alreadysummed : gset VarKey := ∅ in
  st ← for_models varname (summed, alreadysummed) models ;
  Ok (st.1 ∖ st.2).

Section Constructor.

(** [Variable( **vk.descr )]: gpkit's constructor applied to the
    descriptor of a key. *)
Variable Variable_of_descr : VarKey → variable.

(** The order in which Python iterates over a set; it is left open. *)
Variable set_iter : gset VarKey → list VarKey.

(** Lines 4-22: [SummingConstraintSet.__init__]. *)
Definition init (lhs : Nomial) (varname : string) (models : list Model)
  (variables : list variable) : result Constraint :=
  summed ← computed_summedvars varname models variables ;
  Ok (SummingConstraintSet
        [PosynomialInequality lhs
           (py_sum ((fun vk => Var (Variable_of_descr vk)) <$> set_iter summed))]).

End Constructor.

(** ** The specification's vocabulary *)

(** The candidates of a sub-model: what the lookup under [varname]
    returns, as a list. *)
Definition candidates (varname : string) (model : Model) : list variable :=
  as_list (getitem model varname).

(** A depth-one match: a variable whose provenance chain's first entry
    is the name of the sub-model being queried. *)
Definition is_depth_one (model_name : string) (v : variable) : Prop :=
  head (vk_models (key v)) = Some model_name.

#[global] Instance is_depth_one_dec n v : Decision (is_depth_one n v).
Proof. unfold is_depth_one. apply _. Defined.

(** The depth-one matches of a sub-model, in lookup order. *)
Definition depth_one_matches (varname : string) (model : Model)
  : list variable :=
  filter (is_depth_one (name model)) (candidates varname model).

(** A candidate whose provenance chain is empty. *)
Definition empty_chain (v : variable) : Prop := vk_models (key v) = [].

#[global] Instance empty_chain_dec v : Decision (empty_chain v).
Proof. unfold empty_chain. apply _. Defined.

(** The keys already claimed inside a sub-model: the union of the
    [summedvars] of every nested SummingConstraintSet met when
    flattening its constraint tree. *)
Definition nested_summedvars (model : Model) : gset VarKey :=
  ⋃ (omap summedvars (flat model)).

(** The keys of the explicitly supplied variables. *)
Definition explicit_keys (variables : list variable) : gset VarKey :=
  list_to_set (key <$> variables).

(** The keys of the matched variables of all listed sub-models. *)
Definition matched_keys (varname : string) (models : list Model)
  : gset VarKey :=
  ⋃ ((fun m => list_to_set (key <$> depth_one_matches varname m)) <$> models).

(** The keys claimed by nested summations in any listed sub-model. *)
Definition alreadysummed_keys (models : list Model) : gset VarKey :=
  ⋃ (nested_summedvars <$> models).

(** A sub-model on which the loop body goes through: no candidate has
    an empty chain and exactly one candidate is a depth-one match. *)
Definition well_matched (varname : string) (model : Model) : Prop :=
  Forall (fun v => ¬ empty_chain v) (candidates varname model) ∧
  length (depth_one_matches varname model) = 1.

#[global] Instance well_matched_dec varname m : Decision (well_matched varname m).
Proof. unfold well_matched. apply _. Defined.

(** ** A small aircraft: the inputs of the worked examples *)

(** A constructor that builds the variable around exactly the descriptor
    it is given, and an iteration order (the one of [elements]). *)
Definition Variable_from_descr (vk : VarKey) : variable := mkVariable vk.

Definition elements_order (s : gset VarKey) : list VarKey := elements s.

Definition P_M1 : variable := mkVariable (mkVarKey "P" ["M1"] "W" "power draw").
Definition P_M2 : variable := mkVariable (mkVarKey "P" ["M2"] "W" "power draw").
Definition P_M3 : variable := mkVariable (mkVarKey "P" ["M3"] "W" "power draw").
Definition P_avionics : variable :=
  mkVariable (mkVarKey "P_avionics" ["Avionics"] "W" "avionics power").
Definition P_orphan : variable :=
  mkVariable (mkVarKey "P" [] "W" "declared outside any model").
Definition P_total : variable :=
  mkVariable (mkVarKey "P_total" ["Aircraft"] "W" "total power").

(** A model that answers the lookup of ["P"] with [found]. *)
Definition lookup_P (found : Lookup) : string → Lookup :=
  fun varname => if decide (varname = "P") then found else Many [].

(** [M1] declares [P] and holds no summation. *)
Definition M1 : Model := mkModel "M1" (lookup_P (Single P_M1)) [].

(** [M2] declares [P] and already sums it in a nested summation. *)
Definition M2 : Model :=
  mkModel "M2" (lookup_P (Single P_M2))
    [ConstraintSet
       [SummingConstraintSet
          [PosynomialInequality (Var P_M2) (py_sum [Var P_M2])]]].

(** [M3] declares [P]; a nested summation inside it has already
    claimed the avionics power. *)
Definition M3 : Model :=
  mkModel "M3"
    (lookup_P (Single P_M3))
    [SummingConstraintSet
       [PosynomialInequality (Var P_total) (py_sum [Var P_avionics])]].

(** [M4] answers the lookup with its own [P] and a variable whose
    provenance chain is empty. *)
Definition M4 : Model :=
  mkModel "M4"
    (lookup_P (Many [mkVariable (mkVarKey "P" ["M4"] "W" "power draw"); P_orphan]))
    [].

(** ** Lemmas on the pieces of the constructor *)

Lemma is_depth_one_cons n v m0 ms :
  vk_models (key v) = m0 :: ms → is_depth_one n v ↔ m0 = n.
Proof. unfold is_depth_one. intros ->. simpl. split; congruence. Qed.

Lemma depth_one_cons n v l m0 ms kept :
  vk_models (key v) = m0 :: ms →
  depth_one n l = Ok kept →
  depth_one n (v :: l) = Ok (if decide (m0 = n) then v :: kept else kept).
Proof. intros Hm Hl. simpl. rewrite Hm, Hl. done. Qed.

Lemma filter_depth_one_cons n v l m0 ms :
  vk_models (key v) = m0 :: ms →
  filter (is_depth_one n) (v :: l) =
    if decide (m0 = n) then v :: filter (is_depth_one n) l
    else filter (is_depth_one n) l.
Proof.
  intros Hm. rewrite filter_cons.
  pose proof (is_depth_one_cons n v m0 ms Hm) as Hiff.
  destruct (decide (m0 = n)), (decide (is_depth_one n v)); tauto.
Qed.

Lemma depth_one_Ok n l kept :
  depth_one n l = Ok kept →
  kept = filter (is_depth_one n) l ∧ Forall (fun v => ¬ empty_chain v) l.
Proof.
  revert kept. induction l as [|v l IH]; intros kept.
  - simpl. intros [= <-]. split; [done | constructor].
  - destruct (vk_models (key v)) as [|m0 ms] eqn:Hm.
    { simpl. by rewrite Hm. }
    destruct (depth_one n l) as [kept' |e] eqn:Hrec.
    2:{ simpl. rewrite Hm, Hrec. done. }
    rewrite (depth_one_cons n v l m0 ms kept' Hm Hrec).
    intros [= <-]. destruct (IH kept' eq_refl) as [-> Hne].
    split.
    + by rewrite (filter_depth_one_cons n v l m0 ms Hm).
    + constructor; [| done]. unfold empty_chain. by rewrite Hm.
Qed.

Lemma depth_one_total n l :
  Forall (fun v => ¬ empty_chain v) l →
  depth_one n l = Ok (filter (is_depth_one n) l).
Proof.
  induction 1 as [|v l Hv _ IH]; [done |].
  unfold empty_chain in Hv.
  destruct (vk_models (key v)) as [|m0 ms] eqn:Hm; [done |].
  rewrite (depth_one_cons n v l m0 ms _ Hm IH).
  by rewrite (filter_depth_one_cons n v l m0 ms Hm).
Qed.

Lemma depth_one_Raise n l :
  Exists empty_chain l → depth_one n l = Raise IndexError.
Proof.
  induction 1 as [v l Hv | v l _ IH]; simpl.
  - unfold empty_chain in Hv. by rewrite Hv.
  - destruct (vk_models (key v)); [done |]. by rewrite IH.
Qed.

Lemma depth_one_Raise_inv n l e :
  depth_one n l = Raise e → e = IndexError ∧ Exists empty_chain l.
Proof.
  intros Hr. destruct (decide (Exists empty_chain l)) as [Hex | Hno].
  - rewrite (depth_one_Raise n l Hex) in Hr. by simplify_eq.
  - apply not_Exists_Forall in Hno; [| apply _].
    rewrite (depth_one_total n l) in Hr; [done |].
    eapply Forall_impl; [exact Hno | done].
Qed.

Lemma scan_flat_union acc cs :
  scan_flat acc cs = acc ∪ ⋃ (omap summedvars cs).
Proof.
  unfold scan_flat. revert acc. induction cs as [|c cs IH]; intros acc; simpl.
  - set_solver.
  - rewrite IH. destruct (summedvars c); simpl; set_solver.
Qed.

Lemma loop_body_Ok varname s a m :
  well_matched varname m →
  loop_body varname (s, a) m =
    Ok (s ∪ list_to_set (key <$> depth_one_matches varname m),
        a ∪ nested_summedvars m).
Proof.
  intros [Hne Hlen]. unfold loop_body.
  rewrite (depth_one_total _ _ Hne). simpl.
  fold (candidates varname m). fold (depth_one_matches varname m).
  rewrite decide_True by done. by rewrite scan_flat_union.
Qed.

Lemma loop_body_Raise varname st m :
  ¬ well_matched varname m →
  loop_body varname st m =
    Raise (if decide (Exists empty_chain (candidates varname m))
           then IndexError else AssertionError).
Proof.
  intros Hbad. destruct st as [s a]. unfold loop_body.
  fold (candidates varname m). case_decide as Hex.
  - by rewrite (depth_one_Raise _ _ Hex).
  - apply not_Exists_Forall in Hex; [| apply _].
    rewrite (depth_one_total (name m) (candidates varname m)).
    2:{ eapply Forall_impl; [exact Hex | done]. }
    simpl. fold (depth_one_matches varname m).
    rewrite decide_False; [done |].
    intros Hlen. apply Hbad. split; [| done].
    eapply Forall_impl; [exact Hex | done].
Qed.

Lemma for_models_cons varname st m ms :
  for_models varname st (m :: ms) =
    (st' ← loop_body varname st m ; for_models varname st' ms).
Proof. reflexivity. Qed.

Lemma for_models_Ok varname ms : ∀ s a,
  Forall (well_matched varname) ms →
  for_models varname (s, a) ms =
    Ok (s ∪ matched_keys varname ms, a ∪ alreadysummed_keys ms).
Proof.
  unfold matched_keys, alreadysummed_keys.
  induction ms as [|m ms IH]; intros s a Hall.
  - simpl. f_equal. f_equal; set_solver.
  - apply Forall_cons in Hall as [Hm Hms].
    rewrite for_models_cons, (loop_body_Ok _ _ _ _ Hm).
    change (for_models varname
              (s ∪ list_to_set (key <$> depth_one_matches varname m),
               a ∪ nested_summedvars m) ms = Ok
              (s ∪ ⋃ ((fun m => list_to_set (key <$> depth_one_matches varname m))
                        <$> m :: ms),
               a ∪ ⋃ (nested_summedvars <$> m :: ms))).
    rewrite (IH _ _ Hms). rewrite !fmap_cons. simpl.
    f_equal. f_equal; set_solver.
Qed.

Lemma for_models_Raise varname ms : ∀ st,
  Exists (fun m => ¬ well_matched varname m) ms →
  ∃ e, for_models varname st ms = Raise e.
Proof.
  induction ms as [|m ms IH]; intros st Hex; [by apply Exists_nil in Hex |].
  rewrite for_models_cons.
  destruct (decide (well_matched varname m)) as [Hm | Hm].
  - destruct st as [s a]. rewrite (loop_body_Ok _ _ _ _ Hm).
    apply IH. apply Exists_cons in Hex as [? | ?]; done.
  - rewrite (loop_body_Raise _ _ _ Hm). eauto.
Qed.

(** The first sub-model that is not well matched decides the exception. *)
Lemma for_models_first_bad varname pre m post st :
  Forall (well_matched varname) pre →
  ¬ well_matched varname m →
  for_models varname st (pre ++ m :: post) =
    Raise (if decide (Exists empty_chain (candidates varname m))
           then IndexError else AssertionError).
Proof.
  revert st. induction pre as [|p pre IH]; intros st Hpre Hm.
  - simpl app. by rewrite for_models_cons, (loop_body_Raise _ _ _ Hm).
  - apply Forall_cons in Hpre as [Hp Hpre]. destruct st as [s a].
    rewrite <- app_comm_cons, for_models_cons, (loop_body_Ok _ _ _ _ Hp).
    by apply IH.
Qed.

Lemma computed_summedvars_Ok varname models variables :
  Forall (well_matched varname) models →
  computed_summedvars varname models variables =
    Ok ((explicit_keys variables ∪ matched_keys varname models)
          ∖ alreadysummed_keys models).
Proof.
  intros Hall. unfold computed_summedvars.
  rewrite (for_models_Ok _ _ _ _ Hall). simpl.
  fold (explicit_keys variables). f_equal. set_solver.
Qed.

Lemma computed_summedvars_Raise varname models variables :
  Exists (fun m => ¬ well_matched varname m) models →
  ∃ e, computed_summedvars varname models variables = Raise e.
Proof.
  intros Hex. unfold computed_summedvars.
  destruct (for_models_Raise varname models
              (list_to_set (key <$> variables), ∅) Hex) as [e ->].
  by exists e.
Qed.

(** Construction goes through exactly on well-matched sub-models. *)
Lemma computed_summedvars_cases varname models variables :
  (Forall (well_matched varname) models ∧
   computed_summedvars varname models variables =
     Ok ((explicit_keys variables ∪ matched_keys varname models)
           ∖ alreadysummed_keys models)) ∨
  (Exists (fun m => ¬ well_matched varname m) models ∧
   ∃ e, computed_summedvars varname models variables = Raise e).
Proof.
  destruct (decide (Forall (well_matched varname) models)) as [Hall | Hno].
  - left. split; [done |]. by apply computed_summedvars_Ok.
  - right. apply not_Forall_Exists in Hno; [| apply _].
    split; [done |]. by apply computed_summedvars_Raise.
Qed.

Lemma varkeys_fold_Add terms acc :
  varkeys (fold_left Add terms acc) = varkeys acc ∪ ⋃ (varkeys <$> terms).
Proof.
  revert acc. induction terms as [|t terms IH]; intros acc; simpl.
  - set_solver.
  - rewrite IH. simpl. set_solver.
Qed.

Lemma varkeys_py_sum terms :
  varkeys (py_sum terms) = ⋃ (varkeys <$> terms).
Proof. unfold py_sum. rewrite varkeys_fold_Add. simpl. set_solver. Qed.

(** ** Properties of the constructor *)

Section Properties.

Variable Variable_of_descr : VarKey → variable.
Variable set_iter : gset VarKey → list VarKey.

(** Modelled from the spec: gpkit's [Variable] and [VarKey] are not part
    of the helper.  A variable rebuilt from the descriptor of a key
    carries that key again (identity is preserved via the key). *)
Hypothesis key_Variable_of_descr : ∀ vk, key (Variable_of_descr vk) = vk.

(** Iterating over a set visits each of its members once, in some
    order. *)
Hypothesis set_iter_elements : ∀ s, set_iter s ≡ₚ elements s.

Local Abbreviation construct := (init Variable_of_descr set_iter).
Local Abbreviation summed_side s :=
  (py_sum ((fun vk => Var (Variable_of_descr vk)) <$> set_iter s)).

Lemma elem_of_set_iter s vk : vk ∈ set_iter s ↔ vk ∈ s.
Proof. rewrite (set_iter_elements s). apply elem_of_elements. Qed.

Lemma varkeys_summed_side s : varkeys (summed_side s) = s.
Proof.
  rewrite varkeys_py_sum. apply set_eq. intros vk.
  rewrite elem_of_union_list. split.
  - intros (X & HX & Hvk).
    apply list_elem_of_fmap in HX as (t & -> & Ht).
    apply list_elem_of_fmap in Ht as (vk' & -> & Hvk').
    simpl in Hvk. rewrite key_Variable_of_descr in Hvk.
    apply elem_of_singleton in Hvk as ->. by apply elem_of_set_iter.
  - intros Hvk. exists {[ vk ]}. split; [| set_solver].
    apply list_elem_of_fmap. exists (Var (Variable_of_descr vk)).
    split; [simpl; by rewrite key_Variable_of_descr |].
    apply list_elem_of_fmap. exists vk. split; [done |].
    by apply elem_of_set_iter.
Qed.

Lemma init_unfold lhs varname models variables :
  construct lhs varname models variables =
    match computed_summedvars varname models variables with
    | Ok s => Ok (SummingConstraintSet [PosynomialInequality lhs (summed_side s)])
    | Raise e => Raise e
    end.
Proof. reflexivity. Qed.

Lemma init_Ok_inv lhs varname models variables obj :
  construct lhs varname models variables = Ok obj →
  Forall (well_matched varname) models ∧
  obj = SummingConstraintSet
          [PosynomialInequality lhs
             (summed_side ((explicit_keys variables ∪ matched_keys varname models)
                             ∖ alreadysummed_keys models))].
Proof.
  rewrite init_unfold.
  destruct (computed_summedvars_cases varname models variables)
    as [[Hall ->] | [_ [e ->]]]; [| done].
  intros [= <-]. done.
Qed.

Lemma init_Raise_iff lhs varname models variables :
  (∃ e, construct lhs varname models variables = Raise e) ↔
  Exists (fun m => ¬ well_matched varname m) models.
Proof.
  rewrite init_unfold.
  destruct (computed_summedvars_cases varname models variables)
    as [[Hall ->] | [Hex [e ->]]].
  - split; [by intros [e ?] |].
    intros Hex. apply Exists_exists in Hex as (m & Hm & Hbad).
    rewrite Forall_forall in Hall. destruct (Hbad (Hall m Hm)).
  - split; [done | eauto].
Qed.

Lemma summedvars_constructed lhs s :
  summedvars (SummingConstraintSet [PosynomialInequality lhs (summed_side s)])
    = Some s.
Proof. simpl. by rewrite varkeys_summed_side. Qed.

Lemma not_well_matched_iff varname m :
  ¬ well_matched varname m ↔
  Exists empty_chain (candidates varname m) ∨
  length (depth_one_matches varname m) ≠ 1.
Proof.
  unfold well_matched. split.
  - intros Hbad.
    destruct (decide (Exists empty_chain (candidates varname m))) as [? | Hno];
      [by left | right].
    intros Hlen. apply Hbad. split; [| done].
    apply not_Exists_Forall in Hno; [| apply _].
    eapply Forall_impl; [exact Hno | done].
  - intros [Hex | Hlen] [Hall Hone]; [| done].
    apply Exists_exists in Hex as (v & Hv & Hempty).
    rewrite Forall_forall in Hall. by apply (Hall v Hv).
Qed.

(** C1. When each listed sub-model exposes exactly one depth-one
    variable named [varname], the [summedvars] of the constructed set is
    the union of the keys of the explicit variables and of the matched
    variables of the sub-models, minus the union of the [summedvars] of
    every nested SummingConstraintSet met when flattening the
    sub-models.  A result exists as soon as no candidate has an empty
    provenance chain. *)
Theorem C1_summedvars_union_minus_nested lhs varname models variables :
  Forall (fun m => length (depth_one_matches varname m) = 1) models →
  (∀ obj, construct lhs varname models variables = Ok obj →
     summedvars obj =
       Some ((explicit_keys variables ∪ matched_keys varname models)
               ∖ alreadysummed_keys models)) ∧
  (Forall (fun m => Forall (fun v => ¬ empty_chain v) (candidates varname m))
     models →
   ∃ obj, construct lhs varname models variables = Ok obj).
Proof.
  intros Hone. split.
  - intros obj Hobj. apply init_Ok_inv in Hobj as [_ ->].
    apply summedvars_constructed.
  - intros Hchains. rewrite init_unfold, computed_summedvars_Ok; [eauto |].
    rewrite Forall_forall in Hone, Hchains |- *.
    intros m Hm. split; [by apply Hchains | by apply Hone].
Qed.

(** C2. No double counting: a nested SummingConstraintSet [B] met when
    flattening one of the sub-models of [A] shares no key with [A]. *)
Theorem C2_no_double_counting lhs varname models variables A m B sB :
  construct lhs varname models variables = Ok A →
  m ∈ models →
  B ∈ flat m →
  summedvars B = Some sB →
  ∃ sA, summedvars A = Some sA ∧ sA ∩ sB = ∅.
Proof.
  intros HA Hm HB HsB. apply init_Ok_inv in HA as [_ ->].
  eexists. split; [apply summedvars_constructed |].
  assert (sB ⊆ alreadysummed_keys models) as Hsub.
  { intros vk Hvk. unfold alreadysummed_keys.
    apply elem_of_union_list. exists (nested_summedvars m).
    split; [by apply list_elem_of_fmap_2 |].
    unfold nested_summedvars. apply elem_of_union_list. exists sB.
    split; [| done]. apply list_elem_of_omap. eauto. }
  set_solver.
Qed.

(** C3, as amended.  Construction raises exactly when some listed
    sub-model returns a candidate with an empty provenance chain or
    does not have exactly one candidate whose chain starts with the
    sub-model's name; when it raises, no object is produced. *)
Theorem C3_raises_iff_empty_chain_or_not_one lhs varname models variables :
  ((∃ e, construct lhs varname models variables = Raise e) ↔
   Exists (fun m => Exists empty_chain (candidates varname m) ∨
                    length (depth_one_matches varname m) ≠ 1) models) ∧
  ((∃ e, construct lhs varname models variables = Raise e) →
   ∀ obj, construct lhs varname models variables ≠ Ok obj).
Proof.
  split.
  - rewrite init_Raise_iff, !Exists_exists.
    split; intros (m & Hm & Hbad); exists m; (split; [done |]);
      by apply not_well_matched_iff.
  - intros [e ->]. done.
Qed.

(** C4. A single lookup result is treated as a one-element list; the
    depth-one filter keeps exactly the candidates whose provenance
    chain starts with the sub-model's name; and a key in [summedvars]
    that does not come from the explicit variables is the key of a
    candidate that passed the filter. *)
Theorem C4_depth_one_filter lhs varname models variables obj s :
  construct lhs varname models variables = Ok obj →
  summedvars obj = Some s →
  (∀ m v, getitem m varname = Single v → candidates varname m = [v]) ∧
  (∀ m, m ∈ models →
     depth_one (name m) (candidates varname m)
       = Ok (depth_one_matches varname m) ∧
     ∀ v, v ∈ depth_one_matches varname m ↔
          v ∈ candidates varname m ∧ is_depth_one (name m) v) ∧
  (∀ vk, vk ∈ s →
     vk ∈ explicit_keys variables ∨
     ∃ m v, m ∈ models ∧ v ∈ candidates varname m ∧
            is_depth_one (name m) v ∧ key v = vk).
Proof.
  intros Hobj Hs. apply init_Ok_inv in Hobj as [Hall ->].
  rewrite summedvars_constructed in Hs. injection Hs as <-.
  split; [| split].
  - intros m v Hv. unfold candidates. by rewrite Hv.
  - intros m Hm. rewrite Forall_forall in Hall.
    destruct (Hall m Hm) as [Hchains _]. split.
    + by apply depth_one_total.
    + intros v. unfold depth_one_matches. rewrite list_elem_of_filter. tauto.
  - intros vk Hvk. apply elem_of_difference in Hvk as [Hvk _].
    apply elem_of_union in Hvk as [? | Hvk]; [by left | right].
    unfold matched_keys in Hvk.
    apply elem_of_union_list in Hvk as (X & HX & Hvk).
    apply list_elem_of_fmap in HX as (m & -> & Hm).
    apply elem_of_list_to_set, list_elem_of_fmap in Hvk as (v & -> & Hv).
    unfold depth_one_matches in Hv.
    apply list_elem_of_filter in Hv as [Hd Hv].
    by exists m, v.
Qed.

(** C5, as amended.  The key of an explicitly supplied variable is in
    [summedvars] exactly when no nested SummingConstraintSet met during
    the traversal of the sub-models has claimed it. *)
Theorem C5_explicit_key_unless_claimed lhs varname models variables obj v :
  construct lhs varname models variables = Ok obj →
  v ∈ variables →
  ∃ s, summedvars obj = Some s ∧
       (key v ∈ s ↔ key v ∉ alreadysummed_keys models).
Proof.
  intros Hobj Hv. apply init_Ok_inv in Hobj as [_ ->].
  eexists. split; [apply summedvars_constructed |].
  assert (key v ∈ explicit_keys variables) as Hin.
  { unfold explicit_keys. apply elem_of_list_to_set.
    by apply list_elem_of_fmap_2. }
  set_solver.
Qed.

(** C6. The [summedvars] property is read off the stored constraint:
    it is the set of variable keys of its summed side, and that set is
    the one computed at construction time. *)
Theorem C6_summedvars_recomputed lhs varname models variables obj :
  construct lhs varname models variables = Ok obj →
  ∃ p_lt s,
    obj = SummingConstraintSet [PosynomialInequality lhs p_lt] ∧
    summedvars obj = Some (varkeys p_lt) ∧
    computed_summedvars varname models variables = Ok s ∧
    varkeys p_lt = s.
Proof.
  intros Hobj. pose proof Hobj as Hinv. apply init_Ok_inv in Hinv as [Hall ->].
  eexists _, _. split; [reflexivity |]. split; [reflexivity |].
  split; [by apply computed_summedvars_Ok |].
  apply varkeys_summed_side.
Qed.

(** C7. A constructed SummingConstraintSet holds exactly one
    constraint, [lhs >= sum] of one fresh variable per key of the
    computed [summedvars]. *)
Theorem C7_single_constraint lhs varname models variables obj :
  construct lhs varname models variables = Ok obj →
  ∃ s order,
    computed_summedvars varname models variables = Ok s ∧
    order ≡ₚ elements s ∧ NoDup order ∧
    obj = SummingConstraintSet
            [PosynomialInequality lhs
               (py_sum ((fun vk => Var (Variable_of_descr vk)) <$> order))].
Proof.
  intros Hobj. apply init_Ok_inv in Hobj as [Hall ->].
  eexists _, (set_iter _). split; [by apply computed_summedvars_Ok |].
  split; [apply set_iter_elements |]. split; [| reflexivity].
  rewrite set_iter_elements. apply NoDup_elements.
Qed.

(** C9. With no sub-models and no explicit variables construction
    succeeds, the computed [summedvars] is empty and the stored
    constraint is [lhs >= 0]. *)
Theorem C9_empty_construction lhs varname :
  computed_summedvars varname [] [] = Ok ∅ ∧
  construct lhs varname [] [] =
    Ok (SummingConstraintSet [PosynomialInequality lhs (Num 0)]) ∧
  summedvars (SummingConstraintSet [PosynomialInequality lhs (Num 0)]) = Some ∅.
Proof.
  assert (computed_summedvars varname [] [] = Ok ∅) as Hc.
  { unfold computed_summedvars. simpl. f_equal; set_solver. }
  split; [done |]. split; [| done].
  rewrite init_unfold, Hc.
  assert (set_iter ∅ = []) as ->; [| done].
  apply Permutation_nil_r. rewrite set_iter_elements.
  by rewrite elements_empty.
Qed.

(** C10. The depth-one filter indexes the first entry of every
    candidate's provenance chain.  A candidate with an empty chain makes
    the filter raise IndexError, so construction yields no object; the
    exception of the construction is that IndexError when the sub-models
    listed before go through, and it is not the AssertionError of the
    exactly-one check. *)
Theorem C10_empty_chain_IndexError lhs varname pre m post variables v :
  v ∈ candidates varname m →
  empty_chain v →
  depth_one (name m) (candidates varname m) = Raise IndexError ∧
  (∀ obj, construct lhs varname (pre ++ m :: post) variables ≠ Ok obj) ∧
  (Forall (well_matched varname) pre →
   construct lhs varname (pre ++ m :: post) variables = Raise IndexError) ∧
  IndexError ≠ AssertionError.
Proof.
  intros Hv Hempty.
  assert (Exists empty_chain (candidates varname m)) as Hex.
  { apply Exists_exists. eauto. }
  assert (¬ well_matched varname m) as Hbad.
  { apply not_well_matched_iff. by left. }
  split; [by apply depth_one_Raise |]. split; [| split; [| done]].
  - intros obj Hobj. apply init_Ok_inv in Hobj as [Hall _].
    apply Forall_app in Hall as [_ Hall].
    apply Forall_cons in Hall as [Hm _]. done.
  - intros Hpre. rewrite init_unfold. unfold computed_summedvars.
    rewrite (for_models_first_bad _ _ _ _ _ Hpre Hbad).
    by rewrite decide_True.
Qed.

End Properties.

(** C8. Construction is deterministic in its inputs: whatever order the
    set is iterated in, two constructions from the same [lhs],
    [varname], [models] and [variables] either both raise the same
    exception or both succeed with the same [summedvars]. *)
Theorem C8_deterministic_summedvars
  (Variable_of_descr : VarKey → variable)
  (set_iter1 set_iter2 : gset VarKey → list VarKey)
  lhs varname models variables :
  (∀ vk, key (Variable_of_descr vk) = vk) →
  (∀ s, set_iter1 s ≡ₚ elements s) →
  (∀ s, set_iter2 s ≡ₚ elements s) →
  match init Variable_of_descr set_iter1 lhs varname models variables,
        init Variable_of_descr set_iter2 lhs varname models variables with
  | Ok a, Ok b => ∃ s, summedvars a = Some s ∧ summedvars b = Some s
  | Raise e1, Raise e2 => e1 = e2
  | _, _ => False
  end.
Proof.
  intros Hkey Hiter1 Hiter2. rewrite !init_unfold.
  destruct (computed_summedvars varname models variables) as [s | e]; [| done].
  exists s. split; by apply summedvars_constructed.
Qed.

(** ** Worked examples *)

(** The specification's first example: two sub-models, each declaring
    [P]; both keys are summed. *)
Example sum_M1_M3_plain :
  computed_summedvars "P"
    [M1; mkModel "M3" (lookup_P (Single P_M3)) []] []
  = Ok {[ key P_M1; key P_M3 ]}.
Proof. compute_done. Qed.

(** The specification's nesting example: [M2] already sums its own [P],
    so the outer sum keeps only the [P] of [M1]. *)
Example sum_M1_M2_nested :
  init Variable_from_descr elements_order (Var P_total) "P" [M1; M2] []
  = Ok (SummingConstraintSet
          [PosynomialInequality (Var P_total) (Add (Num 0) (Var P_M1))]).
Proof. vm_compute. reflexivity. Qed.

(** A sub-model without any [P] fails the exactly-one check. *)
Example missing_P_AssertionError :
  init Variable_from_descr elements_order (Var P_total) "P"
    [mkModel "M5" (lookup_P (Many [])) []] []
  = Raise AssertionError.
Proof. vm_compute. reflexivity. Qed.

(** ** The properties on the example aircraft *)

Lemma C1_witness :
  Forall (fun m => length (depth_one_matches "P" m) = 1) [M1; M2] ∧
  ((∀ obj,
      init Variable_from_descr elements_order (Var P_total) "P" [M1; M2] []
        = Ok obj →
      summedvars obj =
        Some ((explicit_keys [] ∪ matched_keys "P" [M1; M2])
                ∖ alreadysummed_keys [M1; M2])) ∧
   (Forall (fun m => Forall (fun v => ¬ empty_chain v) (candidates "P" m))
      [M1; M2] →
    ∃ obj,
      init Variable_from_descr elements_order (Var P_total) "P" [M1; M2] []
        = Ok obj)).
Proof.
  assert (Forall (fun m => length (depth_one_matches "P" m) = 1) [M1; M2])
    as Hone by (repeat constructor).
  split; [exact Hone |].
  exact (C1_summedvars_union_minus_nested Variable_from_descr elements_order
           (fun vk => eq_refl) (fun s => Permutation_refl _)
           (Var P_total) "P" [M1; M2] [] Hone).
Defined.

Lemma C2_witness :
  ∃ sA,
    summedvars (SummingConstraintSet
                  [PosynomialInequality (Var P_total) (Add (Num 0) (Var P_M1))])
      = Some sA ∧
    sA ∩ varkeys (py_sum [Var P_M2]) = ∅.
Proof.
  apply (C2_no_double_counting Variable_from_descr elements_order
           (fun vk => eq_refl) (fun s => Permutation_refl _)
           (Var P_total) "P" [M1; M2] [] _ M2
           (SummingConstraintSet
              [PosynomialInequality (Var P_M2) (py_sum [Var P_M2])])).
  - vm_compute. reflexivity.
  - repeat constructor.
  - vm_compute. repeat constructor.
  - reflexivity.
Defined.

Lemma C4_witness :
  (∀ m v, getitem m "P" = Single v → candidates "P" m = [v]) ∧
  (∀ m, m ∈ [M1; M2] →
     depth_one (name m) (candidates "P" m) = Ok (depth_one_matches "P" m) ∧
     ∀ v, v ∈ depth_one_matches "P" m ↔
          v ∈ candidates "P" m ∧ is_depth_one (name m) v) ∧
  (∀ vk, vk ∈ varkeys (Add (Num 0) (Var P_M1)) →
     vk ∈ explicit_keys [] ∨
     ∃ m v, m ∈ [M1; M2] ∧ v ∈ candidates "P" m ∧
            is_depth_one (name m) v ∧ key v = vk).
Proof.
  apply (C4_depth_one_filter Variable_from_descr elements_order
           (fun vk => eq_refl) (fun s => Permutation_refl _)
           (Var P_total) "P" [M1; M2] []
           (SummingConstraintSet
              [PosynomialInequality (Var P_total) (Add (Num 0) (Var P_M1))])).
  - vm_compute. reflexivity.
  - reflexivity.
Defined.

Lemma C5_witness :
  ∃ s,
    summedvars (SummingConstraintSet
                  [PosynomialInequality (Var P_total)
                     (Add (Add (Num 0) (Var P_avionics)) (Var P_M1))])
      = Some s ∧
    (key P_avionics ∈ s ↔ key P_avionics ∉ alreadysummed_keys [M1]).
Proof.
  apply (C5_explicit_key_unless_claimed Variable_from_descr elements_order
           (fun vk => eq_refl) (fun s => Permutation_refl _)
           (Var P_total) "P" [M1] [P_avionics]).
  - vm_compute. reflexivity.
  - repeat constructor.
Defined.

Lemma C6_witness :
  ∃ p_lt s,
    SummingConstraintSet
      [PosynomialInequality (Var P_total) (Add (Num 0) (Var P_M1))]
      = SummingConstraintSet [PosynomialInequality (Var P_total) p_lt] ∧
    summedvars (SummingConstraintSet
                  [PosynomialInequality (Var P_total) (Add (Num 0) (Var P_M1))])
      = Some (varkeys p_lt) ∧
    computed_summedvars "P" [M1; M2] [] = Ok s ∧
    varkeys p_lt = s.
Proof.
  apply (C6_summedvars_recomputed Variable_from_descr elements_order
           (fun vk => eq_refl) (fun s => Permutation_refl _)
           (Var P_total) "P" [M1; M2] []).
  vm_compute. reflexivity.
Defined.

Lemma C7_witness :
  ∃ s order,
    computed_summedvars "P" [M1; M2] [] = Ok s ∧
    order ≡ₚ elements s ∧ NoDup order ∧
    SummingConstraintSet
      [PosynomialInequality (Var P_total) (Add (Num 0) (Var P_M1))]
      = SummingConstraintSet
          [PosynomialInequality (Var P_total)
             (py_sum ((fun vk => Var (Variable_from_descr vk)) <$> order))].
Proof.
  apply (C7_single_constraint Variable_from_descr elements_order
           (fun s => Permutation_refl _)
           (Var P_total) "P" [M1; M2] []).
  vm_compute. reflexivity.
Defined.

Lemma C8_witness :
  match init Variable_from_descr elements_order (Var P_total) "P" [M1; M2] [],
        init Variable_from_descr (fun s => reverse (elements s))
          (Var P_total) "P" [M1; M2] [] with
  | Ok a, Ok b => ∃ s, summedvars a = Some s ∧ summedvars b = Some s
  | Raise e1, Raise e2 => e1 = e2
  | _, _ => False
  end.
Proof.
  apply (C8_deterministic_summedvars Variable_from_descr elements_order
           (fun s => reverse (elements s)) (Var P_total) "P" [M1; M2] []
           (fun vk => eq_refl) (fun s => Permutation_refl _)
           (fun s => reverse_Permutation (elements s))).
Defined.

Lemma C9_witness :
  computed_summedvars "P" [] [] = Ok ∅ ∧
  init Variable_from_descr elements_order (Var P_total) "P" [] [] =
    Ok (SummingConstraintSet [PosynomialInequality (Var P_total) (Num 0)]) ∧
  summedvars (SummingConstraintSet [PosynomialInequality (Var P_total) (Num 0)])
    = Some ∅.
Proof.
  apply (C9_empty_construction Variable_from_descr elements_order
           (fun s => Permutation_refl _) (Var P_total) "P").
Defined.

Lemma C10_witness :
  depth_one (name M4) (candidates "P" M4) = Raise IndexError ∧
  (∀ obj,
     init Variable_from_descr elements_order (Var P_total) "P"
       ([M1] ++ M4 :: [M2]) [] ≠ Ok obj) ∧
  (Forall (well_matched "P") [M1] →
   init Variable_from_descr elements_order (Var P_total) "P"
     ([M1] ++ M4 :: [M2]) [] = Raise IndexError) ∧
  IndexError ≠ AssertionError.
Proof.
  apply (C10_empty_chain_IndexError Variable_from_descr elements_order
           (Var P_total) "P" [M1] M4 [M2] [] P_orphan).
  - vm_compute. repeat constructor.
  - reflexivity.
Defined.

(** ** Inputs on which the specification's wording fails *)

(** C3 as the specification words it: [M4] exposes exactly one variable whose provenance
    chain starts with ["M4"], and construction raises all the same (the
    other candidate has an empty chain). *)
Lemma C3_counterexample :
  ¬ ((∃ e, init Variable_from_descr elements_order (Var P_total) "P" [M4] []
             = Raise e) ↔
     Exists (fun m => length (depth_one_matches "P" m) ≠ 1) [M4]).
Proof.
  intros [Hraise _].
  assert (Exists (fun m => length (depth_one_matches "P" m) ≠ 1) [M4]) as Hex.
  { apply Hraise. exists IndexError. vm_compute. reflexivity. }
  apply Exists_cons in Hex as [Hlen | Hnil].
  - apply Hlen. vm_compute. reflexivity.
  - by apply Exists_nil in Hnil.
Qed.

(** C5 as the specification words it: the avionics power is supplied explicitly, but a
    summation nested in [M3] has claimed it, and its key is not in the
    [summedvars] of the constructed set. *)
Lemma C5_counterexample :
  P_avionics ∈ [P_avionics] ∧
  init Variable_from_descr elements_order (Var P_total) "P" [M3] [P_avionics]
    = Ok (SummingConstraintSet
            [PosynomialInequality (Var P_total) (Add (Num 0) (Var P_M3))]) ∧
  summedvars (SummingConstraintSet
                [PosynomialInequality (Var P_total) (Add (Num 0) (Var P_M3))])
    = Some {[ key P_M3 ]} ∧
  key P_avionics ∉ ({[ key P_M3 ]} : gset VarKey).
Proof.
  split; [repeat constructor |].
  split; [vm_compute; reflexivity |].
  split; [compute_done |].
  intros Hin. apply elem_of_singleton in Hin. discriminate Hin.
Qed.

(** ** Further properties of the constructor *)

Lemma elem_of_matched_keys varname ms vk :
  vk ∈ matched_keys varname ms ↔
  ∃ m v, m ∈ ms ∧ v ∈ depth_one_matches varname m ∧ key v = vk.
Proof.
  unfold matched_keys. rewrite elem_of_union_list. split.
  - intros (X & HX & Hvk). apply list_elem_of_fmap in HX as (m & -> & Hm).
    apply elem_of_list_to_set, list_elem_of_fmap in Hvk as (v & -> & Hv).
    by exists m, v.
  - intros (m & v & Hm & Hv & <-).
    exists (list_to_set (key <$> depth_one_matches varname m)). split.
    + apply list_elem_of_fmap. by exists m.
    + apply elem_of_list_to_set. by apply list_elem_of_fmap_2.
Qed.

Lemma elem_of_alreadysummed_keys ms vk :
  vk ∈ alreadysummed_keys ms ↔ ∃ m, m ∈ ms ∧ vk ∈ nested_summedvars m.
Proof.
  unfold alreadysummed_keys. rewrite elem_of_union_list. split.
  - intros (X & HX & Hvk). apply list_elem_of_fmap in HX as (m & -> & Hm).
    by exists m.
  - intros (m & Hm & Hvk). exists (nested_summedvars m).
    split; [by apply list_elem_of_fmap_2 | done].
Qed.

Lemma elem_of_nested_summedvars m vk :
  vk ∈ nested_summedvars m ↔
  ∃ c s, c ∈ flat m ∧ summedvars c = Some s ∧ vk ∈ s.
Proof.
  unfold nested_summedvars. rewrite elem_of_union_list. split.
  - intros (s & Hs & Hvk). apply list_elem_of_omap in Hs as (c & Hc & Hsc).
    by exists c, s.
  - intros (c & s & Hc & Hsc & Hvk). exists s. split; [| done].
    apply list_elem_of_omap. eauto.
Qed.

(** In a list with a sub-model that is not well matched, there is a
    first such sub-model. *)
Lemma first_not_well_matched varname ms :
  Exists (fun m => ¬ well_matched varname m) ms →
  ∃ (pre : list Model) (m : Model) (post : list Model),
    ms = (pre ++ m :: post)%list ∧
    Forall (well_matched varname) pre ∧ ¬ well_matched varname m.
Proof.
  induction ms as [|m ms IH]; intros Hex; [by apply Exists_nil in Hex |].
  destruct (decide (well_matched varname m)) as [Hm | Hm].
  - apply Exists_cons in Hex as [? | Hex]; [done |].
    destruct (IH Hex) as (pre & m' & post & -> & Hpre & Hbad).
    exists (m :: pre), m', post. split; [done |]. split; [| done].
    by constructor.
  - exists [], m, ms. split; [done |]. split; [constructor | done].
Qed.

Lemma computed_summedvars_first_bad varname pre m post variables :
  Forall (well_matched varname) pre →
  ¬ well_matched varname m →
  computed_summedvars varname (pre ++ m :: post) variables =
    Raise (if decide (Exists empty_chain (candidates varname m))
           then IndexError else AssertionError).
Proof.
  intros Hpre Hbad. unfold computed_summedvars.
  by rewrite (for_models_first_bad _ _ _ _ _ Hpre Hbad).
Qed.

Lemma size_union_le (X Y : gset VarKey) :
  (size (X ∪ Y) ≤ size X + size Y)%nat.
Proof.
  rewrite size_union_alt.
  assert (size (Y ∖ X) ≤ size Y)%nat; [| lia].
  apply subseteq_size. set_solver.
Qed.

Lemma size_list_to_set_le (l : list VarKey) :
  (size (list_to_set l : gset VarKey) ≤ length l)%nat.
Proof.
  induction l as [|vk l IH].
  - rewrite list_to_set_nil, size_empty. done.
  - rewrite list_to_set_cons. etrans; [apply size_union_le |].
    rewrite size_singleton. simpl. lia.
Qed.

Lemma size_matched_keys_le varname ms :
  Forall (well_matched varname) ms →
  (size (matched_keys varname ms) ≤ length ms)%nat.
Proof.
  unfold matched_keys. induction 1 as [|m ms [_ Hone] _ IH].
  - rewrite fmap_nil, union_list_nil, size_empty. done.
  - rewrite fmap_cons, union_list_cons. etrans; [apply size_union_le |].
    pose proof (size_list_to_set_le (key <$> depth_one_matches varname m)) as Hm.
    rewrite length_fmap, Hone in Hm. simpl. lia.
Qed.

Section Further.

Variable Variable_of_descr : VarKey → variable.
Variable set_iter : gset VarKey → list VarKey.
Hypothesis key_Variable_of_descr : ∀ vk, key (Variable_of_descr vk) = vk.
Hypothesis set_iter_elements : ∀ s, set_iter s ≡ₚ elements s.

Local Abbreviation construct := (init Variable_of_descr set_iter).

(** X1. The list of sub-models counts as a set: listing the same
    sub-models in another order, or some of them twice, does not change
    whether construction raises, nor the [summedvars] it yields. *)
Theorem X1_models_as_a_set lhs varname models1 models2 variables :
  (∀ m, m ∈ models1 ↔ m ∈ models2) →
  match construct lhs varname models1 variables,
        construct lhs varname models2 variables with
  | Ok a, Ok b => ∃ s, summedvars a = Some s ∧ summedvars b = Some s
  | Raise _, Raise _ => True
  | _, _ => False
  end.
Proof.
  intros Hsame.
  assert (Forall (well_matched varname) models1 ↔
          Forall (well_matched varname) models2) as Hwm.
  { rewrite !Forall_forall. split; intros H m Hm; apply H; by apply Hsame. }
  assert (matched_keys varname models1 = matched_keys varname models2) as Hmk.
  { apply set_eq. intros vk. rewrite !elem_of_matched_keys.
    split; intros (m & v & Hm & Hv); exists m, v; (split; [by apply Hsame | done]). }
  assert (alreadysummed_keys models1 = alreadysummed_keys models2) as Has.
  { apply set_eq. intros vk. rewrite !elem_of_alreadysummed_keys.
    split; intros (m & Hm & Hv); exists m; (split; [by apply Hsame | done]). }
  rewrite !init_unfold.
  destruct (computed_summedvars_cases varname models1 variables)
    as [[Hall1 ->] | [Hex1 [e1 ->]]],
     (computed_summedvars_cases varname models2 variables)
    as [[Hall2 ->] | [Hex2 [e2 ->]]].
  - rewrite Hmk, Has. eexists. split; by apply summedvars_constructed.
  - apply Hwm in Hall1. apply Exists_exists in Hex2 as (m & Hm & Hbad).
    rewrite Forall_forall in Hall1. by apply Hbad, Hall1.
  - apply Hwm in Hall2. apply Exists_exists in Hex1 as (m & Hm & Hbad).
    rewrite Forall_forall in Hall2. by apply Hbad, Hall2.
  - done.
Qed.

(** X2. Only the keys of the explicit variables matter: two lists of
    explicit variables with the same keys give the same exception, or
    the same [summedvars]. *)
Theorem X2_variables_by_key lhs varname models variables1 variables2 :
  (∀ vk, vk ∈ key <$> variables1 ↔ vk ∈ key <$> variables2) →
  match construct lhs varname models variables1,
        construct lhs varname models variables2 with
  | Ok a, Ok b => ∃ s, summedvars a = Some s ∧ summedvars b = Some s
  | Raise e1, Raise e2 => e1 = e2
  | _, _ => False
  end.
Proof.
  intros Hsame.
  assert (explicit_keys variables1 = explicit_keys variables2) as Hek.
  { apply set_eq. intros vk. unfold explicit_keys.
    rewrite !elem_of_list_to_set. apply Hsame. }
  rewrite !init_unfold.
  destruct (decide (Forall (well_matched varname) models)) as [Hall | Hno].
  - rewrite !computed_summedvars_Ok by done. rewrite Hek.
    eexists. split; by apply summedvars_constructed.
  - apply not_Forall_Exists in Hno; [| apply _].
    destruct (first_not_well_matched _ _ Hno)
      as (pre & m & post & -> & Hpre & Hbad).
    by rewrite !computed_summedvars_first_bad.
Qed.

(** X3. When the first sub-model that fails has no candidate with an
    empty chain, its zero or several depth-one matches make the
    construction raise the AssertionError of line 14. *)
Theorem X3_not_one_match_AssertionError lhs varname pre m post variables :
  Forall (well_matched varname) pre →
  Forall (fun v => ¬ empty_chain v) (candidates varname m) →
  length (depth_one_matches varname m) ≠ 1 →
  construct lhs varname (pre ++ m :: post) variables = Raise AssertionError.
Proof.
  intros Hpre Hchains Hlen.
  assert (¬ well_matched varname m) as Hbad by (by intros [_ ?]).
  rewrite init_unfold, computed_summedvars_first_bad by done.
  rewrite decide_False; [done |].
  intros Hex. apply Exists_exists in Hex as (v & Hv & Hempty).
  rewrite Forall_forall in Hchains. by apply (Hchains v Hv).
Qed.

(** X4. The sum has at most one term per explicit variable and one per
    listed sub-model. *)
Theorem X4_summedvars_size lhs varname models variables obj :
  construct lhs varname models variables = Ok obj →
  ∃ s, summedvars obj = Some s ∧
       (size s ≤ length variables + length models)%nat.
Proof.
  intros Hobj. apply init_Ok_inv in Hobj as [Hall ->].
  eexists. split; [by apply summedvars_constructed |].
  etrans; [apply subseteq_size, subseteq_difference_l; reflexivity |].
  etrans; [apply size_union_le |].
  pose proof (size_matched_keys_le varname models Hall).
  pose proof (size_list_to_set_le (key <$> variables)) as Hv.
  rewrite length_fmap in Hv. unfold explicit_keys. lia.
Qed.

(** X5. The matched variable of a listed sub-model is summed exactly
    when no nested summation of a listed sub-model (its own included)
    has claimed its key. *)
Theorem X5_matched_key_unless_claimed lhs varname models variables obj m v :
  construct lhs varname models variables = Ok obj →
  m ∈ models →
  v ∈ depth_one_matches varname m →
  ∃ s, summedvars obj = Some s ∧
       (key v ∈ s ↔
        ¬ ∃ m' c s', m' ∈ models ∧ c ∈ flat m' ∧
                     summedvars c = Some s' ∧ key v ∈ s').
Proof.
  intros Hobj Hm Hv. apply init_Ok_inv in Hobj as [_ ->].
  eexists. split; [by apply summedvars_constructed |].
  assert (key v ∈ matched_keys varname models) as Hin.
  { apply elem_of_matched_keys. by exists m, v. }
  rewrite elem_of_difference. split.
  - intros [_ Hnot] (m' & c & s' & Hm' & Hc & Hs' & Hk). apply Hnot.
    apply elem_of_alreadysummed_keys. exists m'. split; [done |].
    apply elem_of_nested_summedvars. by exists c, s'.
  - intros Hnot. split; [set_solver |].
    intros Hk. apply Hnot.
    apply elem_of_alreadysummed_keys in Hk as (m' & Hm' & Hk).
    apply elem_of_nested_summedvars in Hk as (c & s' & Hc & Hs' & Hk).
    by exists m', c, s'.
Qed.

(** X6. Supplying more explicit variables never removes a key from the
    sum, and the keys it adds are keys of explicit variables. *)
Theorem X6_more_variables_more_keys
  lhs varname models variables1 variables2 a b :
  (∀ v, v ∈ variables1 → v ∈ variables2) →
  construct lhs varname models variables1 = Ok a →
  construct lhs varname models variables2 = Ok b →
  ∃ sa sb, summedvars a = Some sa ∧ summedvars b = Some sb ∧
           sa ⊆ sb ∧ sb ∖ sa ⊆ explicit_keys variables2.
Proof.
  intros Hsub Ha Hb.
  apply init_Ok_inv in Ha as [_ ->]. apply init_Ok_inv in Hb as [_ ->].
  eexists _, _. split; [by apply summedvars_constructed |].
  split; [by apply summedvars_constructed |].
  assert (explicit_keys variables1 ⊆ explicit_keys variables2) as Hek.
  { intros vk. unfold explicit_keys. rewrite !elem_of_list_to_set.
    intros (v & -> & Hv)%list_elem_of_fmap.
    by apply list_elem_of_fmap_2, Hsub. }
  split; set_solver.
Qed.

(** X7. Constructions compose: a constructed set [A] placed anywhere in
    the constraint tree of a sub-model is found by a later construction
    [B] over that sub-model, and the two share no key. *)
Theorem X7_construct_over_constructed
  lhsA varnameA modelsA variablesA A
  lhsB varnameB modelsB variablesB B m :
  construct lhsA varnameA modelsA variablesA = Ok A →
  m ∈ modelsB →
  A ∈ flat m →
  construct lhsB varnameB modelsB variablesB = Ok B →
  ∃ sA sB, summedvars A = Some sA ∧ summedvars B = Some sB ∧ sA ∩ sB = ∅.
Proof.
  intros HA Hm Hflat HB.
  apply init_Ok_inv in HA as [_ HA]. apply init_Ok_inv in HB as [_ ->].
  assert (∃ sA, summedvars A = Some sA) as [sA HsA].
  { rewrite HA. eexists. by apply summedvars_constructed. }
  exists sA. eexists. split; [done |].
  split; [by apply summedvars_constructed |].
  assert (sA ⊆ alreadysummed_keys modelsB) as Hsub.
  { intros vk Hvk. apply elem_of_alreadysummed_keys. exists m.
    split; [done |]. apply elem_of_nested_summedvars. by exists A, sA. }
  set_solver.
Qed.

(** X8. Without sub-models construction never raises, whatever the
    explicit variables, and sums exactly their keys. *)
Theorem X8_no_models_sums_explicit lhs varname variables :
  ∃ obj, construct lhs varname [] variables = Ok obj ∧
         summedvars obj = Some (explicit_keys variables).
Proof.
  rewrite init_unfold, computed_summedvars_Ok by constructor.
  eexists. split; [reflexivity |].
  rewrite summedvars_constructed by done.
  f_equal. unfold matched_keys, alreadysummed_keys. simpl. set_solver.
Qed.

End Further.

(** ** The further properties on the example aircraft *)

Lemma X1_witness :
  match init Variable_from_descr elements_order (Var P_total) "P" [M1; M2] [],
        init Variable_from_descr elements_order (Var P_total) "P"
          [M2; M1; M2] [] with
  | Ok a, Ok b => ∃ s, summedvars a = Some s ∧ summedvars b = Some s
  | Raise _, Raise _ => True
  | _, _ => False
  end.
Proof.
  apply (X1_models_as_a_set Variable_from_descr elements_order
           (fun vk => eq_refl) (fun s => Permutation_refl _)
           (Var P_total) "P" [M1; M2] [M2; M1; M2] []).
  intros m. rewrite !elem_of_cons. tauto.
Defined.

Lemma X2_witness :
  match init Variable_from_descr elements_order (Var P_total) "P" [M1]
          [P_avionics],
        init Variable_from_descr elements_order (Var P_total) "P" [M1]
          [P_avionics; P_avionics] with
  | Ok a, Ok b => ∃ s, summedvars a = Some s ∧ summedvars b = Some s
  | Raise e1, Raise e2 => e1 = e2
  | _, _ => False
  end.
Proof.
  apply (X2_variables_by_key Variable_from_descr elements_order
           (fun vk => eq_refl) (fun s => Permutation_refl _)
           (Var P_total) "P" [M1] [P_avionics] [P_avionics; P_avionics]).
  intros vk. rewrite !fmap_cons, !elem_of_cons. tauto.
Defined.

Lemma X3_witness :
  init Variable_from_descr elements_order (Var P_total) "P"
    ([M1] ++ mkModel "M5" (lookup_P (Many [])) [] :: [M2]) []
  = Raise AssertionError.
Proof.
  apply (X3_not_one_match_AssertionError Variable_from_descr elements_order
           (Var P_total) "P" [M1] (mkModel "M5" (lookup_P (Many [])) [])
           [M2] []).
  - compute_done.
  - compute_done.
  - compute_done.
Defined.

Lemma X4_witness :
  ∃ s,
    summedvars (SummingConstraintSet
                  [PosynomialInequality (Var P_total)
                     (Add (Add (Num 0) (Var P_avionics)) (Var P_M1))])
      = Some s ∧
    (size s ≤ length [P_avionics] + length [M1])%nat.
Proof.
  apply (X4_summedvars_size Variable_from_descr elements_order
           (fun vk => eq_refl) (fun s => Permutation_refl _)
           (Var P_total) "P" [M1] [P_avionics]).
  vm_compute. reflexivity.
Defined.

Lemma X5_witness :
  ∃ s,
    summedvars (SummingConstraintSet
                  [PosynomialInequality (Var P_total) (Add (Num 0) (Var P_M1))])
      = Some s ∧
    (key P_M2 ∈ s ↔
     ¬ ∃ m' c s', m' ∈ [M1; M2] ∧ c ∈ flat m' ∧
                  summedvars c = Some s' ∧ key P_M2 ∈ s').
Proof.
  apply (X5_matched_key_unless_claimed Variable_from_descr elements_order
           (fun vk => eq_refl) (fun s => Permutation_refl _)
           (Var P_total) "P" [M1; M2] [] _ M2 P_M2).
  - vm_compute. reflexivity.
  - repeat constructor.
  - vm_compute. repeat constructor.
Defined.

Lemma X6_witness :
  ∃ sa sb,
    summedvars (SummingConstraintSet
                  [PosynomialInequality (Var P_total) (Add (Num 0) (Var P_M1))])
      = Some sa ∧
    summedvars (SummingConstraintSet
                  [PosynomialInequality (Var P_total)
                     (Add (Add (Num 0) (Var P_avionics)) (Var P_M1))])
      = Some sb ∧
    sa ⊆ sb ∧ sb ∖ sa ⊆ explicit_keys [P_avionics].
Proof.
  apply (X6_more_variables_more_keys Variable_from_descr elements_order
           (fun vk => eq_refl) (fun s => Permutation_refl _)
           (Var P_total) "P" [M1] [] [P_avionics]).
  - intros v Hv. by apply elem_of_nil in Hv.
  - vm_compute. reflexivity.
  - vm_compute. reflexivity.
Defined.

Lemma X7_witness :
  ∃ sA sB,
    summedvars (SummingConstraintSet
                  [PosynomialInequality (Var P_M2) (Add (Num 0) (Var P_M2))])
      = Some sA ∧
    summedvars (SummingConstraintSet
                  [PosynomialInequality (Var P_total) (Add (Num 0) (Var P_M1))])
      = Some sB ∧
    sA ∩ sB = ∅.
Proof.
  apply (X7_construct_over_constructed Variable_from_descr elements_order
           (fun vk => eq_refl) (fun s => Permutation_refl _)
           (Var P_M2) "P" [] [P_M2] _
           (Var P_total) "P" [M1; M2] [] _ M2).
  - vm_compute. reflexivity.
  - repeat constructor.
  - vm_compute. repeat constructor.
  - vm_compute. reflexivity.
Defined.

Lemma X8_witness :
  ∃ obj,
    init Variable_from_descr elements_order (Var P_total) "P" []
      [P_avionics; P_M1] = Ok obj ∧
    summedvars obj = Some (explicit_keys [P_avionics; P_M1]).
Proof.
  apply (X8_no_models_sums_explicit Variable_from_descr elements_order
           (fun vk => eq_refl) (fun s => Permutation_refl _)
           (Var P_total) "P" [P_avionics; P_M1]).
Defined.
